(** * testkit: a shallow embedding of [bin/testkit.js]

    The program starts a server ([npm run run]), polls its URL until it
    answers, runs the test driver ([npm run test:run]) and finally shuts the
    server down with SIGTERM, escalating to SIGKILL after a timeout.

    Time is measured in milliseconds as [nat].  The world outside the
    program (the OS, the network, the child processes) is an explicit input:
    a probe function saying what a fetch at a given instant yields and how
    long it takes, the list of events a child process emits, and for each
    signal the delay after which the child exits on receiving it. *)

From Stdlib Require Import String Ascii ZArith NArith List Bool Lia.
Import ListNotations.
Open Scope string_scope.

(* ------------------------------------------------------------------ *)
(** ** JavaScript values and errors *)

(** The [Error] objects the program creates or receives. *)
Inductive JsError :=
  | ErrTimeout (url : string) (timeout : nat)
      (* new Error(`Timeout: URL ${url} was not available within ...`) *)
  | ErrExit (code : option Z)
      (* new Error(`Process exited with code ${code}`); None is null *)
  | ErrSpawn (msg : string)      (* an error from child_process.spawn *)
  | ErrOther (msg : string).     (* any other exception, e.g. a TypeError *)

(** How a computation of the program ends.
    - [Ok a]: returns (a promise fulfils) with [a];
    - [Throw e]: throws (a promise rejects) with [e];
    - [Exit c]: [process.exit(c)] was called: the process ends at once,
      no [finally] block runs;
    - [Pending]: awaits a promise that never settles. *)
Inductive Flow (A : Type) :=
  | Ok (a : A)
  | Throw (e : JsError)
  | Exit (code : Z)
  | Pending.
Arguments Ok {A} a.
Arguments Throw {A} e.
Arguments Exit {A} code.
Arguments Pending {A}.

(* ------------------------------------------------------------------ *)
(** ** Rendering numbers in template literals *)

Definition digit_char (d : N) : ascii := ascii_of_N (48 + d).

Fixpoint N_digits (fuel : nat) (n : N) (acc : string) : string :=
  match fuel with
  | O => acc
  | S f =>
      let acc' := String (digit_char (N.modulo n 10)) acc in
      if N.ltb n 10 then acc' else N_digits f (N.div n 10) acc'
  end.

(** Decimal notation of a natural number, as [String(n)] prints it. *)
Definition N_to_dec (n : N) : string := N_digits (S (N.size_nat n)) n "".

(** Decimal notation of an integer, as [String(z)] prints it. *)
Definition Z_to_dec (z : Z) : string :=
  if Z.ltb z 0 then "-" ++ N_to_dec (Z.to_N (- z)) else N_to_dec (Z.to_N z).

(** [${code}] for a close code that is a number or [null]. *)
Definition code_to_string (code : option Z) : string :=
  match code with
  | Some z => Z_to_dec z
  | None => "null"
  end.

Fixpoint strip_trailing_zeros_rev (s : list ascii) : list ascii :=
  match s with
  | "0"%char :: r => strip_trailing_zeros_rev r
  | _ => s
  end.

(** [${timeout / 1000}]: the number of seconds, with a fractional part
    only when the milliseconds are not a whole number of seconds. *)
Definition seconds_to_string (ms : nat) : string :=
  let whole := N_to_dec (N.of_nat (ms / 1000)) in
  let frac := ms mod 1000 in
  if Nat.eqb frac 0 then whole
  else
    let three := list_ascii_of_string
                   (String.substring 1 3 (N_to_dec (N.of_nat (1000 + frac)))) in
    whole ++ "." ++ string_of_list_ascii (rev (strip_trailing_zeros_rev (rev three))).

(** [error.message] *)
Definition message (e : JsError) : string :=
  match e with
  | ErrTimeout url timeout =>
      "Timeout: URL " ++ url ++ " was not available within "
        ++ seconds_to_string timeout ++ " seconds."
  | ErrExit code => "Process exited with code " ++ code_to_string code
  | ErrSpawn m => m
  | ErrOther m => m
  end.

(* ------------------------------------------------------------------ *)
(** ** [spawnProcess(command, args)]

    The promise settles on the first of the child's ['close'] and ['error']
    events; a promise settles once, so later events have no effect. *)

Inductive ProcEvent :=
  | EvClose (code : option Z)   (* 'close' with the exit code, null if signalled *)
  | EvError (e : JsError).      (* 'error' *)

Definition spawnProcess (events : list ProcEvent) : Flow Z :=
  match events with
  | [] => Pending
  | EvClose code :: _ =>
      match code with
      | Some 0%Z => Ok 0%Z                       (* code === 0: resolve(code) *)
      | _ => Throw (ErrExit code)                (* reject(new Error(...)) *)
      end
  | EvError err :: _ => Throw err                (* reject(err) *)
  end.

(* ------------------------------------------------------------------ *)
(** ** [gracefulShutdown(childProcess, timeoutMs = 5000, signal = 'SIGTERM')]

    Times are relative to the call.  The timer and the initial signal are
    both set up in the call's first synchronous run, at time 0. *)

(** The fields of a [ChildProcess] that the function reads. *)
Record Child := {
  pid : Z;
  exitCode : option Z;          (* childProcess.exitCode, None is null *)
  signalCode : option string    (* childProcess.signalCode, None is null *)
}.

(** How the child answers a signal: [resp s = Some d] when it exits [d] ms
    after receiving [s], [None] when it ignores [s]. *)
Definition Response := string -> option nat.

(** A promise seen through its settlement: [Some (t, v)] when it resolves
    with [v] at time [t], [None] when it never does. *)
Definition Timed (A : Type) := option (nat * A).

(** [Promise.race([p, q])]: the first promise to resolve wins; at the
    same instant the one listed first wins. *)
Definition race {A} (p q : Timed A) : Timed A :=
  match p, q with
  | Some (tp, _), Some (tq, _) => if Nat.ltb tq tp then q else p
  | Some _, None => p
  | None, _ => q
  end.

(** [x !== null] *)
Definition not_null {A} (x : option A) : bool :=
  match x with Some _ => true | None => false end.

Definition min_opt (a b : option nat) : option nat :=
  match a, b with
  | Some x, Some y => Some (Nat.min x y)
  | Some x, None => Some x
  | None, y => y
  end.

(** The result: the signals sent (with the time each is sent), how the
    returned promise settles, and when. *)
Definition gracefulShutdown (childProcess : Child) (timeoutMs : nat)
    (signal : string) (resp : Response)
    : list (nat * string) * (Flow bool * nat) :=
  (* 1. If process is already dead, return immediately *)
  if not_null childProcess.(exitCode) || not_null childProcess.(signalCode)
  then ([], (Ok true, 0))
  else
    (* 2. exitPromise: resolves true on the child's 'exit' event; with only
          the initial signal sent (at time 0) the child exits at [resp signal] *)
    let exitPromise : Timed bool := option_map (fun t => (t, true)) (resp signal) in
    (* 3. timeoutPromise: resolves false after timeoutMs *)
    let timeoutPromise : Timed bool := Some (timeoutMs, false) in
    (* 4. childProcess.kill(signal) at time 0;
       5. race *)
    match race exitPromise timeoutPromise with
    | Some (t, true) => ([(0, signal)], (Ok true, t))
    | Some (t, false) =>
        (* childProcess.kill('SIGKILL') at t, then await exitPromise: the
           child exits on whichever signal takes effect first *)
        let exit_at := min_opt (resp signal) (option_map (Nat.add t) (resp "SIGKILL")) in
        ([(0, signal); (t, "SIGKILL")],
         match exit_at with
         | Some te => (Ok false, te)
         | None => (Pending, t)
         end)
    | None => ([(0, signal)], (Pending, 0))  (* the timer always fires *)
    end.

(* ------------------------------------------------------------------ *)
(** ** [waitForUrl(url, timeout = 60000)] *)

(** One [fetch(url)]: a response with [response.ok], a response without
    it, or a rejection (a transport error). *)
Inductive ProbeResult :=
  | ProbeOk
  | ProbeNotOk
  | ProbeError (e : JsError).

(** What a fetch started at a given instant yields, and how long it takes. *)
Definition Probe := nat -> ProbeResult * nat.

Definition poll_interval : nat := 500.

(** The [while] loop; [now] is [Date.now()].  Every round takes at least
    [poll_interval] ms, so [S timeout] rounds always suffice
    ([waitForUrl_settles] below); [fuel] only makes the recursion
    structural. *)
Fixpoint wait_loop (fuel : nat) (url : string) (timeout startTime now : nat)
    (probe : Probe) : Flow unit * nat :=
  match fuel with
  | O => (Pending, now)
  | S f =>
      if Nat.ltb (now - startTime) timeout then
        let '(r, latency) := probe now in        (* await fetch(url) *)
        let now' := now + latency in
        match r with
        | ProbeOk => (Ok tt, now')                (* response.ok: return *)
        | ProbeNotOk                              (* not ok: fall through *)
        | ProbeError _ =>                         (* catch: swallowed *)
            (* await new Promise((resolve) => setTimeout(resolve, 500)) *)
            wait_loop f url timeout startTime (now' + poll_interval) probe
        end
      else (Throw (ErrTimeout url timeout), now)
  end.

(** Started at time [t0]: [startTime = Date.now()]. *)
Definition waitForUrl (url : string) (timeout : nat) (probe : Probe) (t0 : nat)
    : Flow unit * nat :=
  wait_loop (S timeout) url timeout t0 t0 probe.

Definition default_wait_timeout : nat := 60000.

(* ------------------------------------------------------------------ *)
(** ** Command line: the option loop of [main]

    [args[i].slice(2).split('=')], [options[key] = value || true],
    [args.splice(i, 1); i--]: every argument starting with [--] is removed
    from [args] and recorded, from left to right. *)

(** [s.split(c)] *)
Fixpoint split_on (c : ascii) (s : string) : list string :=
  match s with
  | EmptyString => [""]
  | String x r =>
      let rest := split_on c r in
      if Ascii.eqb x c then "" :: rest
      else match rest with
           | h :: t => String x h :: t
           | [] => [String x ""]
           end
  end.

(** The values stored in [options]: [true] or a string. *)
Inductive OptVal := OTrue | OStr (s : string).

(** The [options] object, most recent assignment first. *)
Definition Options := list (string * OptVal).

(** [options[key]], [None] for [undefined]. *)
Fixpoint lookup_opt (key : string) (options : Options) : option OptVal :=
  match options with
  | [] => None
  | (k, v) :: rest => if String.eqb k key then Some v else lookup_opt key rest
  end.

(** [const [key, value] = arg.slice(2).split('=')] and [value || true]. *)
Definition option_of_arg (arg : string) : string * OptVal :=
  let parts := split_on "=" (substring 2 (String.length arg - 2) arg) in
  let key := nth 0 parts "" in
  let value := match nth_error parts 1 with
               | Some v => if String.eqb v "" then OTrue else OStr v
               | None => OTrue
               end in
  (key, value).

Fixpoint parse_args (args : list string) (options : Options) : Options * list string :=
  match args with
  | [] => (options, [])
  | a :: rest =>
      if String.prefix "--" a then
        let '(key, value) := option_of_arg a in
        parse_args rest ((key, value) :: options)
      else
        let '(o, r) := parse_args rest options in (o, a :: r)
  end.

(** [${options.port}] *)
Definition template_opt (v : option OptVal) : string :=
  match v with
  | None => "undefined"
  | Some OTrue => "true"
  | Some (OStr s) => s
  end.

(** [let serverURL = `http://localhost:${options.port}`] *)
Definition serverURL (options : Options) : string :=
  "http://localhost:" ++ template_opt (lookup_opt "port" options).

(* ------------------------------------------------------------------ *)
(** ** The platform's [fetch] on a URL string

    Platform model (not code of this repository): [fetch] first parses its
    argument with the WHATWG URL parser, which fails when the port of an
    [http:] URL is not a decimal number of at most 65535; [fetch] then
    rejects with a [TypeError] without contacting any host. *)

Definition is_digit (c : ascii) : bool :=
  let n := nat_of_ascii c in Nat.leb 48 n && Nat.leb n 57.

Definition all_digits (s : string) : bool := forallb is_digit (list_ascii_of_string s).

Definition digits_value (s : string) : N :=
  fold_left (fun acc c => (acc * 10 + N.of_nat (nat_of_ascii c - 48))%N)
            (list_ascii_of_string s) 0%N.

Fixpoint take_authority (s : string) : string :=
  match s with
  | EmptyString => EmptyString
  | String c r =>
      if Ascii.eqb c "/" || Ascii.eqb c "?" || Ascii.eqb c "#" then EmptyString
      else String c (take_authority r)
  end.

Definition url_port_ok (url : string) : bool :=
  if String.prefix "http://" url then
    let authority := take_authority (substring 7 (String.length url - 7) url) in
    match split_on ":" authority with
    | [_] => true
    | parts =>
        let port := last parts "" in
        all_digits port && N.leb (digits_value port) 65535
    end
  else true.

(** [fetch(url)] against an endpoint whose answers are [net]. *)
Definition fetch (url : string) (net : Probe) : Probe :=
  fun t => if url_port_ok url then net t
           else (ProbeError (ErrOther "TypeError: Failed to parse URL"), 0).

(* ------------------------------------------------------------------ *)
(** ** The orchestration: [run2] and [main]

    A state and error monad: the state holds the observable trace and the
    variable [serverProcess]; a computation ends in a [Flow]. *)

Inductive Action :=
  | ServerSpawned                  (* spawn(serverCommand, serverArgs) returned *)
  | ServerFailedLogged             (* console.error('Failed to start server process:', err) *)
  | ReadinessStarted (url : string) (* await waitForUrl(serverURL) *)
  | DriverStarted                  (* await spawnProcess(secondCommand, secondArgs) *)
  | ErrorLogged (msg : string)     (* console.error('An error occurred:', error.message) *)
  | ShutdownCalled                 (* await gracefulShutdown(serverProcess) *)
  | SignalSent (t : nat) (sig : string). (* childProcess.kill(sig), t ms into the shutdown *)

Record St := {
  trace : list Action;
  serverProcess : option Child
}.

Definition M (A : Type) := St -> St * Flow A.

Definition ret {A} (a : A) : M A := fun s => (s, Ok a).

Definition bind {A B} (m : M A) (k : A -> M B) : M B :=
  fun s => let '(s1, r) := m s in
           match r with
           | Ok a => k a s1
           | Throw e => (s1, Throw e)
           | Exit c => (s1, Exit c)
           | Pending => (s1, Pending)
           end.

Notation "x <- m ;; k" := (bind m (fun x => k))
  (at level 61, m at next level, right associativity).
Notation "m ;;; k" := (bind m (fun _ => k)) (at level 61, right associativity).

Definition lift {A} (r : Flow A) : M A := fun s => (s, r).

Definition emit (a : Action) : M unit :=
  fun s => ({| trace := s.(trace) ++ [a]; serverProcess := s.(serverProcess) |}, Ok tt).

Definition set_server (c : Child) : M unit :=
  fun s => ({| trace := s.(trace); serverProcess := Some c |}, Ok tt).

Definition get_server : M (option Child) := fun s => (s, Ok s.(serverProcess)).

(** [try { body } catch (error) { handler } finally { fin }]: the handler
    sees a thrown error; [fin] runs after either unless the process has
    exited ([process.exit]) or the computation never resumes; an abrupt end
    of [fin] replaces the result. *)
Definition try_catch_finally {A} (body : M A) (handler : JsError -> M A)
    (fin : M unit) : M A :=
  fun s =>
    let '(s1, r1) := body s in
    let '(s2, r2) := match r1 with
                     | Throw e => handler e s1
                     | _ => (s1, r1)
                     end in
    match r2 with
    | Exit c => (s2, Exit c)
    | Pending => (s2, Pending)
    | _ =>
        let '(s3, r3) := fin s2 in
        match r3 with
        | Ok _ => (s3, r2)
        | Throw e => (s3, Throw e)
        | Exit c => (s3, Exit c)
        | Pending => (s3, Pending)
        end
    end.

(** How [spawn(serverCommand, serverArgs)] behaves.  [SpawnErrorEvent]:
    the handle is returned and the child emits ['error'] on the next tick
    (ENOENT, EACCES, EAGAIN); [SpawnThrows]: [spawn] throws and no handle
    is returned. *)
Inductive SpawnMode :=
  | SpawnOk
  | SpawnErrorEvent (e : JsError)
  | SpawnThrows (e : JsError).

(** The world one run of the program meets. *)
Record Env := {
  srv_spawn : SpawnMode;
  net : Probe;                 (* the server's HTTP endpoint, by time *)
  drv_events : list ProcEvent; (* events of the driver child *)
  srv_child : Child;           (* the server handle as gracefulShutdown reads it *)
  srv_resp : Response          (* how the server answers signals *)
}.

Definition sig_action (p : nat * string) : Action := SignalSent (fst p) (snd p).

(** [await gracefulShutdown(serverProcess)] with its defaults. *)
Definition shutdown (c : Child) (env : Env) : M unit :=
  emit ShutdownCalled ;;;
  let '(sigs, (r, _)) := gracefulShutdown c 5000 "SIGTERM" env.(srv_resp) in
  fold_right (fun p m => emit (sig_action p) ;;; m)
             (_ <- lift r ;; ret tt) sigs.

Definition run2 (args : list string) (options : Options) (env : Env) : M unit :=
  let url := serverURL options in
  try_catch_finally
    ( (* 1. Start the first process (the server) *)
      match env.(srv_spawn) with
      | SpawnThrows e => lift (Throw e)
      | _ => set_server env.(srv_child) ;;; emit ServerSpawned
      end ;;;
      (* serverProcess.on('error', ...) is registered; 2. await waitForUrl *)
      emit (ReadinessStarted url) ;;;
      match env.(srv_spawn) with
      | SpawnErrorEvent _ =>
          (* the 'error' handler runs while the first fetch is in flight *)
          emit ServerFailedLogged ;;; lift (Exit 1%Z)
      | _ => lift (fst (waitForUrl url default_wait_timeout (fetch url env.(net)) 0))
      end ;;;
      (* 3. Run the second process and wait for it to finish *)
      emit DriverStarted ;;;
      _ <- lift (spawnProcess env.(drv_events)) ;;
      ret tt )
    (fun error => emit (ErrorLogged (message error)))
    ( (* 4. finally: if (serverProcess) await gracefulShutdown(serverProcess) *)
      sp <- get_server ;;
      match sp with
      | Some c => shutdown c env
      | None => ret tt
      end ).

Definition main (argv : list string) (env : Env) : M unit :=
  let args := skipn 2 argv in
  let '(options, rest) := parse_args args [] in
  let '(command, args') := match rest with
                           | c :: r => (c, r)
                           | [] => ("run", rest)
                           end in
  if String.eqb command "run" then run2 args' options env
  else run2 args' options env.

(** How the node process ends: its exit code, or never. *)
Inductive ProgEnd := ProgExit (code : Z) | ProgHang.

(** [await main(); console.log(...)] as the module body: a normal end
    leaves exit code 0, an unhandled rejection exit code 1. *)
Definition program (argv : list string) (env : Env) : list Action * ProgEnd :=
  let '(s, r) := main argv env {| trace := []; serverProcess := None |} in
  (s.(trace),
   match r with
   | Ok _ => ProgExit 0
   | Throw _ => ProgExit 1
   | Exit c => ProgExit c
   | Pending => ProgHang
   end).

(* ------------------------------------------------------------------ *)
(** ** Concrete inputs *)

Definition server_child : Child :=
  {| pid := 4242; exitCode := None; signalCode := None |}.

(** A child that exits [d] ms after SIGTERM and 10 ms after any other signal. *)
Definition term_in (d : nat) : Response :=
  fun s => if String.eqb s "SIGTERM" then Some d else Some 10.

(** A child that ignores SIGTERM and dies 10 ms after SIGKILL. *)
Definition ignores_term : Response :=
  fun s => if String.eqb s "SIGKILL" then Some 10 else None.

Definition argv_port : list string := ["node"; "testkit.js"; "--port=3000"].

(** The server comes up, answers at once; the tests fail with exit code 2. *)
Definition env_driver_fails : Env := {|
  srv_spawn := SpawnOk;
  net := fun _ => (ProbeOk, 200);
  drv_events := [EvClose (Some 2%Z)];
  srv_child := server_child;
  srv_resp := term_in 100 |}.

(** [npm] is not on the PATH: spawning the server fails with ENOENT. *)
Definition env_spawn_enoent : Env := {|
  srv_spawn := SpawnErrorEvent (ErrSpawn "spawn npm ENOENT");
  net := fun _ => (ProbeError (ErrOther "ECONNREFUSED"), 1);
  drv_events := [EvClose (Some 0%Z)];
  srv_child := server_child;
  srv_resp := term_in 100 |}.

(** A fetch that is refused, and one that takes 2 s to answer 503. *)
Definition refused : Probe := fun _ => (ProbeError (ErrOther "ECONNREFUSED"), 0).
Definition slow_503 : Probe := fun _ => (ProbeNotOk, 2000).

(** Shutdown happens once, as the last step. *)
Definition count_shutdowns (tr : list Action) : nat :=
  length (filter (fun a => match a with ShutdownCalled => true | _ => false end) tr).

(* ================================================================== *)
(** * Lemmas about the model *)

Arguments waitForUrl : simpl never.
Arguments shutdown : simpl never.
Arguments option_of_arg : simpl never.

Lemma emit_signals (sigs : list (nat * string)) (m : M unit) (s : St) :
  fold_right (fun p m => emit (sig_action p) ;;; m) m sigs s
  = m {| trace := s.(trace) ++ map sig_action sigs;
         serverProcess := s.(serverProcess) |}.
Proof.
  revert s; induction sigs as [|p sigs IH]; intros [tr sp]; simpl.
  - rewrite app_nil_r; reflexivity.
  - unfold bind at 1; simpl. rewrite IH; simpl. rewrite <- app_assoc. reflexivity.
Qed.

Lemma gracefulShutdown_flow (c : Child) (T : nat) (sig : string) (resp : Response) :
  (exists b, fst (snd (gracefulShutdown c T sig resp)) = Ok b)
  \/ fst (snd (gracefulShutdown c T sig resp)) = Pending.
Proof.
  unfold gracefulShutdown, race, min_opt.
  destruct (not_null (exitCode c) || not_null (signalCode c)).
  { left; exists true; reflexivity. }
  destruct (resp sig) as [d|]; simpl; [destruct (Nat.ltb T d); simpl|];
    destruct (resp "SIGKILL"); simpl;
    first [ left; eexists; reflexivity | right; reflexivity ].
Qed.

Lemma shutdown_spec (c : Child) (env : Env) (s : St) :
  exists sigs r,
    shutdown c env s =
      ({| trace := s.(trace) ++ ShutdownCalled :: map sig_action sigs;
          serverProcess := s.(serverProcess) |}, r)
    /\ (r = Ok tt \/ r = Pending).
Proof.
  unfold shutdown. unfold bind at 1; simpl.
  pose proof (gracefulShutdown_flow c 5000 "SIGTERM" (srv_resp env)) as Hf.
  destruct (gracefulShutdown c 5000 "SIGTERM" (srv_resp env)) as [sigs [r t]].
  rewrite emit_signals. simpl in Hf. exists sigs.
  destruct Hf as [[b ->] | ->]; simpl.
  - eexists; split; [rewrite <- app_assoc; reflexivity | left; reflexivity].
  - eexists; split; [rewrite <- app_assoc; reflexivity | right; reflexivity].
Qed.

Lemma wait_loop_result (fuel : nat) (url : string) (T st now : nat) (probe : Probe) :
  fst (wait_loop fuel url T st now probe) = Ok tt
  \/ fst (wait_loop fuel url T st now probe) = Throw (ErrTimeout url T)
  \/ fst (wait_loop fuel url T st now probe) = Pending.
Proof.
  revert now; induction fuel as [|f IH]; intro now; simpl; auto.
  destruct (Nat.ltb (now - st) T); simpl; auto.
  destruct (probe now) as [[| |e] lat]; simpl; auto.
Qed.

Lemma wait_loop_settles (url : string) (T st : nat) (probe : Probe) :
  forall f now, st <= now -> T <= now - st + poll_interval * f ->
  fst (wait_loop (S f) url T st now probe) <> Pending.
Proof.
  induction f as [|f IH]; intros now Hle Hfuel; simpl.
  - destruct (Nat.ltb (now - st) T) eqn:Hlt.
    + apply Nat.ltb_lt in Hlt. unfold poll_interval in Hfuel. lia.
    + discriminate.
  - destruct (Nat.ltb (now - st) T) eqn:Hlt; [|discriminate].
    destruct (probe now) as [[| |e] lat]; simpl; try discriminate;
      apply IH; unfold poll_interval in *; lia.
Qed.

Lemma waitForUrl_settles (url : string) (T : nat) (probe : Probe) (t0 : nat) :
  fst (waitForUrl url T probe t0) = Ok tt
  \/ fst (waitForUrl url T probe t0) = Throw (ErrTimeout url T).
Proof.
  unfold waitForUrl.
  pose proof (wait_loop_settles url T t0 probe T t0 (le_n _)) as H.
  destruct (wait_loop_result (S T) url T t0 t0 probe) as [H1 | [H1 | H1]]; auto.
  exfalso; apply H; [unfold poll_interval; lia | exact H1].
Qed.

Ltac run_simpl := unfold bind, emit, set_server, lift, ret, get_server; simpl.

(** Rewrites the shutdown step of a run with [shutdown_spec]. *)
Ltac open_shutdown :=
  match goal with
  | |- context [shutdown ?c ?e ?st] =>
      let sigs := fresh "sigs" in let r := fresh "r" in
      let Hs := fresh "Hs" in let Hr := fresh "Hr" in
      destruct (shutdown_spec c e st) as (sigs & r & Hs & Hr);
      rewrite Hs; simpl
  end.

Lemma run2_spawn_error (args : list string) (options : Options) (env : Env)
    (s : St) (e : JsError) :
  srv_spawn env = SpawnErrorEvent e ->
  run2 args options env s =
    ({| trace := s.(trace) ++ [ServerSpawned; ReadinessStarted (serverURL options);
                               ServerFailedLogged];
        serverProcess := Some (srv_child env) |}, Exit 1%Z).
Proof.
  intro He. destruct s as [tr sp].
  unfold run2, try_catch_finally. rewrite He. run_simpl.
  rewrite <- !app_assoc. reflexivity.
Qed.

Lemma run2_flow (args : list string) (options : Options) (env : Env) (s : St) :
  (forall e, srv_spawn env <> SpawnErrorEvent e) ->
  snd (run2 args options env s) = Ok tt \/ snd (run2 args options env s) = Pending.
Proof.
  intro Hne. destruct s as [tr sp].
  unfold run2, try_catch_finally.
  set (T := default_wait_timeout); clearbody T.
  destruct (srv_spawn env) as [|e|e] eqn:Hs; [| exfalso; eapply Hne; reflexivity |].
  - run_simpl.
    destruct (waitForUrl_settles (serverURL options) T
                (fetch (serverURL options) (net env)) 0) as [W | W];
      rewrite W; run_simpl.
    + destruct (drv_events env) as [|[code|err] rest]; run_simpl; auto.
      * destruct code as [[|p|p]|]; run_simpl; open_shutdown; destruct Hr as [-> | ->]; auto.
      * open_shutdown; destruct Hr as [-> | ->]; auto.
    + open_shutdown; destruct Hr as [-> | ->]; auto.
  - run_simpl. destruct sp as [c|]; [open_shutdown; destruct Hr as [-> | ->]|]; auto.
Qed.

Lemma count_shutdowns_app (l1 l2 : list Action) :
  count_shutdowns (l1 ++ l2)%list = count_shutdowns l1 + count_shutdowns l2.
Proof. unfold count_shutdowns. rewrite filter_app, length_app. reflexivity. Qed.

Lemma count_shutdowns_signals (sigs : list (nat * string)) :
  count_shutdowns (map sig_action sigs) = 0.
Proof. induction sigs as [|p sigs IH]; simpl; auto. Qed.

Ltac finish_last :=
  open_shutdown;
  match goal with
  | Hr : _ = Ok tt \/ _ = Pending |- _ =>
      destruct Hr as [-> | ->]; simpl;
      [ intros _; do 2 eexists; (split; [reflexivity|]);
        rewrite !count_shutdowns_app; unfold count_shutdowns; simpl; lia
      | let H := fresh "H" in intro H; exfalso; apply H; reflexivity ]
  end.

(** On a run whose server spawned, shutdown is the last step and the only
    one added to the trace. *)
Lemma run2_shutdown_last (args : list string) (options : Options) (env : Env)
    (s : St) :
  srv_spawn env = SpawnOk ->
  snd (run2 args options env s) <> Pending ->
  exists pre sigs,
    trace (fst (run2 args options env s)) = (pre ++ ShutdownCalled :: map sig_action sigs)%list
    /\ count_shutdowns pre = count_shutdowns (trace s).
Proof.
  intros Hs Hend. destruct s as [tr sp]. revert Hend.
  unfold run2, try_catch_finally.
  set (T := default_wait_timeout); clearbody T.
  rewrite Hs. run_simpl.
  destruct (waitForUrl_settles (serverURL options) T
              (fetch (serverURL options) (net env)) 0) as [W | W];
    rewrite W; run_simpl.
  - destruct (drv_events env) as [|[code|err] rest]; run_simpl;
      [ intro H; exfalso; apply H; reflexivity | destruct code as [[|p|p]|]; run_simpl | ];
      finish_last.
  - finish_last.
Qed.

Lemma main_is_run2 (argv : list string) (env : Env) (s : St) :
  exists args, main argv env s = run2 args (fst (parse_args (skipn 2 argv) [])) env s.
Proof.
  unfold main. destruct (parse_args (skipn 2 argv) []) as [options rest]; simpl.
  destruct rest as [|c r]; destruct (String.eqb _ "run"); eauto.
Qed.

Lemma wait_loop_never_ready (url : string) (T L st : nat) (probe : Probe) :
  (forall t, fst (probe t) <> ProbeOk) ->
  (forall t, snd (probe t) <= L) ->
  forall f now, st <= now ->
  T <= now - st + poll_interval * f ->
  now - st < T + L + poll_interval ->
  exists t, wait_loop (S f) url T st now probe = (Throw (ErrTimeout url T), t)
            /\ st + T <= t < st + T + L + poll_interval.
Proof.
  intros Hno Hlat. induction f as [|f IH]; intros now Hle Hf Hw; simpl.
  - destruct (Nat.ltb (now - st) T) eqn:Hlt.
    + apply Nat.ltb_lt in Hlt. unfold poll_interval in *. lia.
    + apply Nat.ltb_ge in Hlt. exists now. split; [reflexivity | lia].
  - destruct (Nat.ltb (now - st) T) eqn:Hlt.
    + apply Nat.ltb_lt in Hlt.
      specialize (Hno now). specialize (Hlat now).
      destruct (probe now) as [r lat]; simpl in Hno, Hlat.
      destruct r as [| |e]; [contradiction| |];
        apply IH; unfold poll_interval in *; lia.
    + apply Nat.ltb_ge in Hlt. exists now. split; [reflexivity | lia].
Qed.

Lemma parse_args_no_key (key : string) :
  forall args options,
  (forall a, In a args -> String.prefix "--" a = true -> fst (option_of_arg a) <> key) ->
  lookup_opt key (fst (parse_args args options)) = lookup_opt key options.
Proof.
  induction args as [|a rest IH]; intros options Hk; cbn [parse_args]; auto.
  destruct (String.prefix "--" a) eqn:Hp.
  - destruct (option_of_arg a) as [k v] eqn:Ho.
    rewrite IH by (intros b Hb; apply Hk; right; exact Hb).
    simpl. destruct (String.eqb k key) eqn:Hkk; auto.
    apply String.eqb_eq in Hkk. exfalso.
    apply (Hk a (or_introl eq_refl) Hp). rewrite Ho. exact Hkk.
  - destruct (parse_args rest options) as [o r] eqn:Hpr; simpl.
    specialize (IH options). rewrite Hpr in IH. apply IH.
    intros b Hb; apply Hk; right; exact Hb.
Qed.

Lemma url_undefined_rejected : url_port_ok "http://localhost:undefined" = false.
Proof. reflexivity. Qed.

Lemma program_run2 (argv : list string) (env : Env) :
  exists args,
    program argv env =
      let '(s, r) := run2 args (fst (parse_args (skipn 2 argv) [])) env
                        {| trace := []; serverProcess := None |} in
      (s.(trace),
       match r with
       | Ok _ => ProgExit 0
       | Throw _ => ProgExit 1
       | Exit c => ProgExit c
       | Pending => ProgHang
       end).
Proof.
  destruct (main_is_run2 argv env {| trace := []; serverProcess := None |}) as [args Hm].
  exists args. unfold program. rewrite Hm. reflexivity.
Qed.

(* ================================================================== *)
(** * The claims *)

(** C1 (code_bug).  Whatever the driver does, a run that ends and whose
    server did not emit a spawn ['error'] leaves exit code 0: [run2] logs
    a failing driver (or a readiness timeout) in its [catch] block and
    nothing sets a non-zero exit code.  Only the server's ['error'] handler
    calls [process.exit(1)]. *)
Theorem program_exit_code_ignores_driver (argv : list string) (env : Env) :
  (forall e, srv_spawn env <> SpawnErrorEvent e) ->
  snd (program argv env) <> ProgHang ->
  snd (program argv env) = ProgExit 0.
Proof.
  intros Hne Hend.
  destruct (program_run2 argv env) as [args Hp]. rewrite Hp in *.
  destruct (run2_flow args (fst (parse_args (skipn 2 argv) [])) env
              {| trace := []; serverProcess := None |} Hne) as [Hr | Hr];
  destruct (run2 args (fst (parse_args (skipn 2 argv) [])) env
              {| trace := []; serverProcess := None |}) as [s r];
  simpl in Hr; subst r; simpl in *; [reflexivity | congruence].
Qed.

(** At the failing input: the driver exits with code 2, the failure is
    logged, and the orchestrator still exits with code 0. *)
Lemma program_exit_code_ignores_driver_witness :
  snd (program argv_port env_driver_fails) = ProgExit 0
  /\ In (ErrorLogged "Process exited with code 2") (fst (program argv_port env_driver_fails)).
Proof.
  split.
  - apply program_exit_code_ignores_driver.
    + intros e H; discriminate H.
    + vm_compute; discriminate.
  - vm_compute. right; right; right; left; reflexivity.
Defined.

(** C2 (counterexample).  The server handle is created, the server fails
    to spawn, and the run ends (exit code 1) without any shutdown call. *)
Lemma spawn_error_run_skips_shutdown :
  In ServerSpawned (fst (program argv_port env_spawn_enoent))
  /\ count_shutdowns (fst (program argv_port env_spawn_enoent)) = 0
  /\ snd (program argv_port env_spawn_enoent) = ProgExit 1.
Proof. vm_compute. split; [left; reflexivity | split; reflexivity]. Qed.

(** C2 (amended).  When the server spawns, every run that ends calls
    [gracefulShutdown] exactly once, as its last step (only the signals it
    sends follow), whether the driver succeeded, failed, could not start,
    or the readiness wait timed out.  When the server emits a spawn
    ['error'], its handler exits the process with code 1 and shutdown is
    never called. *)
Theorem run_shuts_server_down_once (argv : list string) (env : Env) :
  (srv_spawn env = SpawnOk ->
   snd (program argv env) <> ProgHang ->
   count_shutdowns (fst (program argv env)) = 1
   /\ exists pre sigs,
        fst (program argv env) = (pre ++ ShutdownCalled :: map sig_action sigs)%list)
  /\ (forall e, srv_spawn env = SpawnErrorEvent e ->
      count_shutdowns (fst (program argv env)) = 0
      /\ snd (program argv env) = ProgExit 1).
Proof.
  destruct (program_run2 argv env) as [args Hp]. rewrite Hp.
  set (options := fst (parse_args (skipn 2 argv) [])).
  set (s0 := {| trace := []; serverProcess := None |}).
  split.
  - intros Hs Hend.
    assert (Hend' : snd (run2 args options env s0) <> Pending).
    { intro H. apply Hend.
      destruct (run2 args options env s0) as [s r]. simpl in H. subst r. reflexivity. }
    destruct (run2_shutdown_last args options env s0 Hs Hend') as (pre & sigs & Htr & Hc).
    destruct (run2 args options env s0) as [s r]. simpl in *.
    rewrite Htr. split.
    + change (ShutdownCalled :: map sig_action sigs)
        with ([ShutdownCalled] ++ map sig_action sigs)%list.
      rewrite !count_shutdowns_app, Hc, count_shutdowns_signals. reflexivity.
    + eauto.
  - intros e He. rewrite (run2_spawn_error args options env s0 e He). simpl.
    split; reflexivity.
Qed.

Lemma run_shuts_server_down_once_witness :
  count_shutdowns (fst (program argv_port env_driver_fails)) = 1.
Proof.
  apply (run_shuts_server_down_once argv_port env_driver_fails).
  - reflexivity.
  - vm_compute; discriminate.
Defined.

(** C3 (counterexample).  [npm] cannot be spawned: the run logs the
    failure and ends with exit code 1; no driver starts, and the shutdown
    step is never reached. *)
Lemma spawn_error_trace :
  program argv_port env_spawn_enoent =
    ([ServerSpawned; ReadinessStarted "http://localhost:3000"; ServerFailedLogged],
     ProgExit 1)
  /\ ~ In ShutdownCalled (fst (program argv_port env_spawn_enoent)).
Proof.
  split; [vm_compute; reflexivity |].
  vm_compute. intros [H | [H | [H | []]]]; discriminate H.
Qed.

(** C3 (amended).  If the server emits a spawn ['error'], its handler logs
    the failure and calls [process.exit(1)] while the first readiness
    probe is in flight: the process ends with exit code 1, no driver is
    started and the shutdown step is not reached. *)
Theorem spawn_error_exits_before_shutdown (argv : list string) (env : Env)
    (e : JsError) :
  srv_spawn env = SpawnErrorEvent e ->
  program argv env =
    ([ServerSpawned; ReadinessStarted (serverURL (fst (parse_args (skipn 2 argv) [])));
      ServerFailedLogged],
     ProgExit 1).
Proof.
  intro He.
  destruct (program_run2 argv env) as [args Hp]. rewrite Hp.
  rewrite (run2_spawn_error args _ env _ e He). reflexivity.
Qed.

Lemma spawn_error_exits_before_shutdown_witness :
  program argv_port env_spawn_enoent =
    ([ServerSpawned; ReadinessStarted (serverURL (fst (parse_args (skipn 2 argv_port) [])));
      ServerFailedLogged],
     ProgExit 1).
Proof.
  apply (spawn_error_exits_before_shutdown argv_port env_spawn_enoent
           (ErrSpawn "spawn npm ENOENT")).
  reflexivity.
Defined.

(** C4.  On a child whose [exitCode] or [signalCode] is already set,
    [gracefulShutdown] sends no signal and resolves [true] at once. *)
Theorem gracefulShutdown_already_exited (c : Child) (timeoutMs : nat)
    (signal : string) (resp : Response) :
  (exitCode c <> None \/ signalCode c <> None) ->
  gracefulShutdown c timeoutMs signal resp = ([], (Ok true, 0)).
Proof.
  intro H. unfold gracefulShutdown.
  destruct H as [H | H].
  - destruct (exitCode c); [reflexivity | congruence].
  - destruct (exitCode c); [reflexivity|].
    destruct (signalCode c); [reflexivity | congruence].
Qed.

Lemma gracefulShutdown_already_exited_witness :
  gracefulShutdown {| pid := 7; exitCode := Some 0%Z; signalCode := None |}
                   5000 "SIGTERM" (term_in 100) = ([], (Ok true, 0)).
Proof.
  apply gracefulShutdown_already_exited. left; discriminate.
Defined.

(** C5.  A running child that exits [d < timeoutMs] ms after the initial
    signal: only that signal is sent and the result is [true], at [d]. *)
Theorem gracefulShutdown_graceful_exit (c : Child) (timeoutMs : nat)
    (signal : string) (resp : Response) (d : nat) :
  exitCode c = None -> signalCode c = None ->
  resp signal = Some d -> d < timeoutMs ->
  gracefulShutdown c timeoutMs signal resp = ([(0, signal)], (Ok true, d)).
Proof.
  intros He Hs Hr Hd. unfold gracefulShutdown.
  rewrite He, Hs, Hr. simpl.
  replace (Nat.ltb timeoutMs d) with false; [reflexivity|].
  symmetry. apply Nat.ltb_ge. lia.
Qed.

Lemma gracefulShutdown_graceful_exit_witness :
  gracefulShutdown server_child 5000 "SIGTERM" (term_in 100)
  = ([(0, "SIGTERM")], (Ok true, 100)).
Proof.
  apply gracefulShutdown_graceful_exit; try reflexivity. lia.
Defined.

(** C6.  A running child that has not exited when the timer fires: SIGKILL
    follows the initial signal at [timeoutMs], then the call waits for the
    exit and resolves [false] when it happens (never, if the child
    survives SIGKILL). *)
Theorem gracefulShutdown_escalates (c : Child) (timeoutMs : nat)
    (signal : string) (resp : Response) :
  exitCode c = None -> signalCode c = None ->
  (resp signal = None \/ exists d, resp signal = Some d /\ timeoutMs < d) ->
  gracefulShutdown c timeoutMs signal resp =
    ([(0, signal); (timeoutMs, "SIGKILL")],
     match min_opt (resp signal) (option_map (Nat.add timeoutMs) (resp "SIGKILL")) with
     | Some te => (Ok false, te)
     | None => (Pending, timeoutMs)
     end)
  /\ (forall te, min_opt (resp signal) (option_map (Nat.add timeoutMs) (resp "SIGKILL"))
                 = Some te -> timeoutMs <= te).
Proof.
  intros He Hs Hlate. split.
  - unfold gracefulShutdown. rewrite He, Hs. simpl.
    destruct Hlate as [Hn | (d & Hd & Hlt)].
    + rewrite Hn. reflexivity.
    + rewrite Hd. simpl.
      replace (Nat.ltb timeoutMs d) with true by (symmetry; apply Nat.ltb_lt; lia).
      reflexivity.
  - intros te Hte. unfold min_opt in Hte.
    destruct Hlate as [Hn | (d & Hd & Hlt)].
    + rewrite Hn in Hte. destruct (resp "SIGKILL"); simpl in Hte; inversion Hte; lia.
    + rewrite Hd in Hte. destruct (resp "SIGKILL"); simpl in Hte; inversion Hte; lia.
Qed.

Lemma gracefulShutdown_escalates_witness :
  gracefulShutdown server_child 5000 "SIGTERM" ignores_term
  = ([(0, "SIGTERM"); (5000, "SIGKILL")], (Ok false, 5010)).
Proof.
  destruct (gracefulShutdown_escalates server_child 5000 "SIGTERM" ignores_term
              eq_refl eq_refl (or_introl eq_refl)) as [H _].
  rewrite H. reflexivity.
Defined.

(** C7.  A transport error never leaves [waitForUrl]: the wait either
    returns or throws its own timeout error; and a round whose fetch
    rejects continues, after its latency and the fixed 500 ms pause, with
    the next round. *)
Theorem waitForUrl_swallows_transport_errors (url : string) (T t0 : nat)
    (probe : Probe) :
  match fst (waitForUrl url T probe t0) with
  | Ok _ => True
  | Throw e => e = ErrTimeout url T
  | _ => False
  end
  /\ (forall f st now e lat,
        now - st < T -> probe now = (ProbeError e, lat) ->
        wait_loop (S f) url T st now probe
        = wait_loop f url T st (now + lat + poll_interval) probe).
Proof.
  split.
  - destruct (waitForUrl_settles url T probe t0) as [H | H]; rewrite H; auto.
  - intros f st now e lat Hlt Hp. simpl.
    replace (Nat.ltb (now - st) T) with true by (symmetry; apply Nat.ltb_lt; exact Hlt).
    rewrite Hp. reflexivity.
Qed.

Lemma waitForUrl_swallows_transport_errors_witness :
  wait_loop 3 "http://localhost:3000" 1000 0 0 refused
  = wait_loop 2 "http://localhost:3000" 1000 0 500 refused.
Proof.
  destruct (waitForUrl_swallows_transport_errors "http://localhost:3000" 1000 0 refused)
    as [_ H].
  apply (H 2 0 0 (ErrOther "ECONNREFUSED") 0); [lia | reflexivity].
Defined.

(** C8 (counterexample).  Timeout 1 s, every fetch answers 503 after 2 s:
    the timeout error comes at 2.5 s, later than 1 s plus one poll
    interval. *)
Lemma slow_probe_overshoots :
  waitForUrl "http://localhost:3000" 1000 slow_503 0
    = (Throw (ErrTimeout "http://localhost:3000" 1000), 2500)
  /\ 1000 + poll_interval < 2500.
Proof. split; [vm_compute; reflexivity | unfold poll_interval; lia]. Qed.

(** C8 (amended).  When no fetch succeeds and each takes at most [L] ms,
    the wait throws the timeout error carrying the URL and [T], no earlier
    than [T] after its start and less than [T + L + 500] ms after it. *)
Theorem waitForUrl_timeout_window (url : string) (T L t0 : nat) (probe : Probe) :
  (forall t, fst (probe t) <> ProbeOk) ->
  (forall t, snd (probe t) <= L) ->
  exists t, waitForUrl url T probe t0 = (Throw (ErrTimeout url T), t)
            /\ t0 + T <= t < t0 + T + L + poll_interval.
Proof.
  intros Hno Hlat. unfold waitForUrl.
  apply (wait_loop_never_ready url T L t0 probe Hno Hlat T t0);
    unfold poll_interval; lia.
Qed.

Lemma waitForUrl_timeout_window_witness :
  exists t, waitForUrl "http://localhost:3000" 1000 slow_503 0
              = (Throw (ErrTimeout "http://localhost:3000" 1000), t)
            /\ 0 + 1000 <= t < 0 + 1000 + 2000 + poll_interval.
Proof.
  apply waitForUrl_timeout_window.
  - intros t; discriminate.
  - intros t; simpl; lia.
Defined.

(** C9.  [spawnProcess] resolves exactly when the first settling event is
    ['close'] with code 0; any other close code, [null] included (a child
    killed by a signal), rejects with [Process exited with code <code>],
    which for [null] reads "Process exited with code null". *)
Theorem spawnProcess_close_code (code : option Z) (rest : list ProcEvent) :
  (spawnProcess (EvClose code :: rest) = Ok 0%Z <-> code = Some 0%Z)
  /\ (code <> Some 0%Z -> spawnProcess (EvClose code :: rest) = Throw (ErrExit code))
  /\ message (ErrExit None) = "Process exited with code null".
Proof.
  split; [|split].
  - destruct code as [[|p|p]|]; simpl; split; intro H; congruence.
  - intro H. destruct code as [[|p|p]|]; simpl; congruence.
  - reflexivity.
Qed.

Lemma spawnProcess_close_code_witness :
  spawnProcess [EvClose None] = Throw (ErrExit None)
  /\ message (ErrExit None) = "Process exited with code null".
Proof.
  destruct (spawnProcess_close_code None []) as (_ & H & Hm).
  split; [apply H; discriminate | exact Hm].
Defined.

(** C10.  Without a [--port] option the server URL is
    "http://localhost:undefined"; fetch rejects it at every attempt, so
    the wait always ends in the timeout error, at least [T] after it
    started. *)
Theorem no_port_polls_undefined (argv : list string) :
  (forall a, In a (skipn 2 argv) -> String.prefix "--" a = true ->
             fst (option_of_arg a) <> "port") ->
  serverURL (fst (parse_args (skipn 2 argv) [])) = "http://localhost:undefined"
  /\ forall (net : Probe) (T t0 : nat),
       exists t,
         waitForUrl "http://localhost:undefined" T
                    (fetch "http://localhost:undefined" net) t0
         = (Throw (ErrTimeout "http://localhost:undefined" T), t)
         /\ t0 + T <= t.
Proof.
  intro Hk. split.
  - unfold serverURL. rewrite (parse_args_no_key "port" _ [] Hk). reflexivity.
  - intros net T t0.
    assert (Hno : forall t, fst (fetch "http://localhost:undefined" net t) <> ProbeOk).
    { intro t. unfold fetch. rewrite url_undefined_rejected. discriminate. }
    assert (Hlat : forall t, snd (fetch "http://localhost:undefined" net t) <= 0).
    { intro t. unfold fetch. rewrite url_undefined_rejected. simpl. lia. }
    unfold waitForUrl.
    destruct (wait_loop_never_ready "http://localhost:undefined" T 0 t0
                (fetch "http://localhost:undefined" net) Hno Hlat T t0)
      as (t & Ht & Hb); [unfold poll_interval; lia .. |].
    exists t. split; [exact Ht | lia].
Qed.

Lemma no_port_polls_undefined_witness :
  serverURL (fst (parse_args (skipn 2 ["node"; "testkit.js"; "run"; "--verbose"]) []))
  = "http://localhost:undefined".
Proof.
  apply (no_port_polls_undefined ["node"; "testkit.js"; "run"; "--verbose"]).
  intros a Ha Hp. simpl in Ha.
  destruct Ha as [<- | [<- | []]]; [discriminate Hp | vm_compute; discriminate].
Defined.

(* ================================================================== *)
(** * Further properties of the program *)

(** An argument text with no [=] in it. *)
Definition no_eq (s : string) : bool :=
  forallb (fun x => negb (Ascii.eqb x "=")) (list_ascii_of_string s).

Lemma split_on_no_eq (s : string) : no_eq s = true -> split_on "=" s = [s].
Proof.
  induction s as [|x s IH]; intro H; [reflexivity|].
  simpl in H |- *. apply andb_prop in H as [Hx Hs].
  apply negb_true_iff in Hx. rewrite Hx, (IH Hs). reflexivity.
Qed.

Lemma split_on_app_eq (k w : string) :
  no_eq k = true -> split_on "=" (k ++ String "=" w) = k :: split_on "=" w.
Proof.
  induction k as [|x k IH]; intro H; [reflexivity|].
  simpl in H |- *. apply andb_prop in H as [Hx Hk].
  apply negb_true_iff in Hx. rewrite Hx, (IH Hk). reflexivity.
Qed.

Lemma string_app_nil_r (s : string) : s ++ "" = s.
Proof. induction s as [|x s IH]; simpl; [reflexivity | rewrite IH; reflexivity]. Qed.

Lemma substring_full (s : string) : substring 0 (String.length s) s = s.
Proof. induction s as [|x s IH]; simpl; [reflexivity | rewrite IH; reflexivity]. Qed.

Lemma option_of_arg_dashes (r : string) :
  option_of_arg ("--" ++ r) =
    (nth 0 (split_on "=" r) "",
     match nth_error (split_on "=" r) 1 with
     | Some v => if String.eqb v "" then OTrue else OStr v
     | None => OTrue
     end).
Proof.
  unfold option_of_arg. simpl. rewrite Nat.sub_0_r, substring_full. reflexivity.
Qed.

Lemma parse_args_options_only (args : list string) (options : Options) :
  fst (parse_args args options)
  = fst (parse_args (filter (String.prefix "--") args) options).
Proof.
  revert options; induction args as [|a rest IH]; intro options;
    cbn [parse_args filter]; [reflexivity|].
  destruct (String.prefix "--" a) eqn:Hp.
  - cbn [parse_args]. rewrite Hp.
    destruct (option_of_arg a) as [k v]. apply IH.
  - destruct (parse_args rest options) as [o r] eqn:E. simpl.
    rewrite <- IH, E. reflexivity.
Qed.

Lemma parse_args_app (pre post : list string) (options : Options) :
  fst (parse_args (pre ++ post) options)
  = fst (parse_args post (fst (parse_args pre options))).
Proof.
  revert options; induction pre as [|a pre IH]; intro options; [reflexivity|].
  simpl (([a] ++ _)%list). cbn [parse_args app].
  destruct (String.prefix "--" a).
  - destruct (option_of_arg a) as [k v]. apply IH.
  - destruct (parse_args (pre ++ post) options) as [o r] eqn:E1.
    destruct (parse_args pre options) as [o' r'] eqn:E2. simpl.
    specialize (IH options). rewrite E1, E2 in IH. exact IH.
Qed.

Lemma parse_args_last_option (pre post : list string) (a : string) (options : Options) :
  String.prefix "--" a = true ->
  (forall b, In b post -> String.prefix "--" b = true ->
             fst (option_of_arg b) <> fst (option_of_arg a)) ->
  lookup_opt (fst (option_of_arg a)) (fst (parse_args (pre ++ a :: post) options))
  = Some (snd (option_of_arg a)).
Proof.
  intros Hp Hpost. rewrite parse_args_app. cbn [parse_args]. rewrite Hp.
  destruct (option_of_arg a) as [k v] eqn:Ho. simpl in Hpost |- *.
  rewrite (parse_args_no_key k post _ Hpost). simpl.
  rewrite String.eqb_refl. reflexivity.
Qed.


(** X2.  A flag [--key] with no [=] sets [options[key]] to [true]. *)
Theorem option_of_arg_flag (key : string) :
  no_eq key = true -> option_of_arg ("--" ++ key) = (key, OTrue).
Proof.
  intro Hk. rewrite option_of_arg_dashes, (split_on_no_eq key Hk). reflexivity.
Qed.

Lemma option_of_arg_flag_witness :
  option_of_arg "--verbose" = ("verbose", OTrue).
Proof. apply (option_of_arg_flag "verbose"). reflexivity. Defined.

(** X3.  [--key=value] sets [options[key]] to [value], or to [true] when
    [value] is empty ([value || true]); text after a second [=] is
    dropped. *)
Theorem option_of_arg_value (key value rest : string) :
  no_eq key = true -> no_eq value = true ->
  (rest = "" \/ exists w, rest = "=" ++ w) ->
  option_of_arg ("--" ++ key ++ "=" ++ value ++ rest)
  = (key, if String.eqb value "" then OTrue else OStr value).
Proof.
  intros Hk Hv Hr. rewrite option_of_arg_dashes.
  change ("=" ++ value ++ rest) with (String "=" (value ++ rest)).
  rewrite (split_on_app_eq key _ Hk).
  destruct Hr as [-> | [w ->]].
  - rewrite string_app_nil_r, (split_on_no_eq value Hv). reflexivity.
  - change ("=" ++ w) with (String "=" w).
    rewrite (split_on_app_eq value w Hv). reflexivity.
Qed.

Lemma option_of_arg_value_witness :
  option_of_arg "--port=3000=x" = ("port", OStr "3000").
Proof.
  apply (option_of_arg_value "port" "3000" "=x"); try reflexivity.
  right; exists "x"; reflexivity.
Defined.



(** X5.  With [--port=p] as the last port option ([p] not empty, no [=]),
    the readiness URL is [http://localhost:p]. *)
Theorem serverURL_port (pre post : list string) (p : string) :
  no_eq p = true -> p <> "" ->
  (forall b, In b post -> String.prefix "--" b = true -> fst (option_of_arg b) <> "port") ->
  serverURL (fst (parse_args (pre ++ ("--port=" ++ p) :: post) [])) = "http://localhost:" ++ p.
Proof.
  intros Hp Hne Hpost.
  assert (Ho : option_of_arg ("--port=" ++ p) = ("port", OStr p)).
  { change ("--port=" ++ p) with ("--" ++ ("port" ++ "=" ++ p)).
    rewrite option_of_arg_dashes.
    change ("port" ++ "=" ++ p) with ("port" ++ String "=" p).
    rewrite (split_on_app_eq "port" p eq_refl), (split_on_no_eq p Hp). simpl.
    destruct (String.eqb p "") eqn:E; [apply String.eqb_eq in E; contradiction | reflexivity]. }
  unfold serverURL.
  pose proof (parse_args_last_option pre post ("--port=" ++ p) [] eq_refl) as H.
  rewrite Ho in H. cbn [fst snd] in H. rewrite H by exact Hpost. reflexivity.
Qed.

Lemma serverURL_port_witness :
  serverURL (fst (parse_args (["run"] ++ ("--port=" ++ "8080") :: ["--watch"]) []))
  = "http://localhost:8080".
Proof.
  apply (serverURL_port ["run"] ["--watch"] "8080"); [reflexivity | discriminate |].
  intros b [<- | []] _. vm_compute. discriminate.
Defined.

Lemma run2_ignores_args (args args' : list string) (options : Options) (env : Env) :
  run2 args options env = run2 args' options env.
Proof. reflexivity. Qed.

(** X6.  Arguments without [--] (the command name included) have no
    effect: two command lines with the same option arguments, in the same
    order, run identically. *)
Theorem program_positional_irrelevant (argv argv' : list string) (env : Env) :
  filter (String.prefix "--") (skipn 2 argv) = filter (String.prefix "--") (skipn 2 argv') ->
  program argv env = program argv' env.
Proof.
  intro Hf.
  destruct (program_run2 argv env) as [a Ha].
  destruct (program_run2 argv' env) as [a' Ha'].
  rewrite Ha, Ha', (run2_ignores_args a a').
  rewrite (parse_args_options_only (skipn 2 argv)),
          (parse_args_options_only (skipn 2 argv')), Hf.
  reflexivity.
Qed.

Lemma program_positional_irrelevant_witness :
  program ["node"; "testkit.js"; "run"; "--port=3000"] env_driver_fails
  = program ["node"; "testkit.js"; "test"; "--port=3000"; "extra"] env_driver_fails.
Proof. apply program_positional_irrelevant. reflexivity. Defined.

(** X7.  With a timeout of 0 the loop body never runs: no fetch is made
    and the timeout error is thrown at once. *)
Theorem waitForUrl_zero_timeout (url : string) (probe : Probe) (t0 : nat) :
  waitForUrl url 0 probe t0 = (Throw (ErrTimeout url 0), t0).
Proof. unfold waitForUrl. simpl. reflexivity. Qed.

Lemma wait_loop_ok_from_probe (url : string) (T st : nat) (probe : Probe) :
  forall f now,
  fst (wait_loop f url T st now probe) = Ok tt ->
  exists t, now <= t /\ t - st < T /\ fst (probe t) = ProbeOk
            /\ snd (wait_loop f url T st now probe) = t + snd (probe t).
Proof.
  induction f as [|f IH]; intros now H; simpl in H |- *; [discriminate|].
  destruct (Nat.ltb (now - st) T) eqn:Hlt; [|discriminate].
  apply Nat.ltb_lt in Hlt.
  destruct (probe now) as [r lat] eqn:Hp.
  destruct r as [| |e].
  - exists now. rewrite Hp. simpl. auto.
  - destruct (IH _ H) as (t & Hle & Ht & Hok & Hend). exists t. repeat split; auto; lia.
  - destruct (IH _ H) as (t & Hle & Ht & Hok & Hend). exists t. repeat split; auto; lia.
Qed.

(** X8.  The wait succeeds only because a fetch it made, started no
    earlier than the wait and before the deadline, answered with
    [response.ok]; it returns when that fetch completes. *)
Theorem waitForUrl_ok_needs_ok_response (url : string) (T t0 : nat) (probe : Probe) :
  fst (waitForUrl url T probe t0) = Ok tt ->
  exists t, t0 <= t /\ t - t0 < T /\ fst (probe t) = ProbeOk
            /\ snd (waitForUrl url T probe t0) = t + snd (probe t).
Proof. unfold waitForUrl. apply wait_loop_ok_from_probe. Qed.

(** A server that answers 200 to every fetch, in 5 ms. *)
Definition always_ok : Probe := fun _ => (ProbeOk, 5).

Lemma waitForUrl_ok_needs_ok_response_witness :
  exists t, 0 <= t /\ t - 0 < 1000 /\ fst (always_ok t) = ProbeOk
            /\ snd (waitForUrl "http://localhost:3000" 1000 always_ok 0)
               = t + snd (always_ok t).
Proof. apply waitForUrl_ok_needs_ok_response. reflexivity. Defined.

Lemma wait_loop_detects (url : string) (T st L r : nat) (probe : Probe) :
  (forall t, snd (probe t) <= L) ->
  (forall t, r <= t -> fst (probe t) = ProbeOk) ->
  Nat.max st r + L + poll_interval <= st + T ->
  forall f now, st <= now -> now < Nat.max st r + L + poll_interval ->
  T <= now - st + poll_interval * f ->
  exists t, wait_loop f url T st now probe = (Ok tt, t)
            /\ t < Nat.max st r + 2 * L + poll_interval.
Proof.
  intros Hlat Hready Hdl.
  induction f as [|f IH]; intros now Hle Hnow Hf.
  - unfold poll_interval in *. lia.
  - simpl. replace (Nat.ltb (now - st) T) with true
      by (symmetry; apply Nat.ltb_lt; unfold poll_interval in *; lia).
    specialize (Hlat now).
    destruct (probe now) as [res lat] eqn:Hp. simpl in Hlat.
    destruct (Nat.le_gt_cases r now) as [Hr | Hr].
    + specialize (Hready now Hr). rewrite Hp in Hready. simpl in Hready. subst res.
      exists (now + lat). split; [reflexivity | unfold poll_interval in *; lia].
    + destruct res as [| |e].
      * exists (now + lat). split; [reflexivity | unfold poll_interval in *; lia].
      * apply IH; unfold poll_interval in *; lia.
      * apply IH; unfold poll_interval in *; lia.
Qed.

(** X9.  If the server answers [ok] from time [r] on and every fetch takes
    at most [L] ms, and the deadline leaves room for one more round after
    [r], the wait succeeds less than [2L + 500] ms after [max t0 r]. *)
Theorem waitForUrl_detects_ready (url : string) (T t0 L r : nat) (probe : Probe) :
  (forall t, snd (probe t) <= L) ->
  (forall t, r <= t -> fst (probe t) = ProbeOk) ->
  Nat.max t0 r + L + poll_interval <= t0 + T ->
  exists t, waitForUrl url T probe t0 = (Ok tt, t)
            /\ t < Nat.max t0 r + 2 * L + poll_interval.
Proof.
  intros Hlat Hready Hdl. unfold waitForUrl.
  apply (wait_loop_detects url T t0 L r probe Hlat Hready Hdl);
    unfold poll_interval in *; lia.
Qed.

(** A server that answers 503 until 1.2 s, then 200; each fetch takes 3 ms. *)
Definition ready_at_1200 : Probe :=
  fun t => if Nat.ltb t 1200 then (ProbeNotOk, 3) else (ProbeOk, 3).

Lemma waitForUrl_detects_ready_witness :
  exists t, waitForUrl "http://localhost:3000" 5000 ready_at_1200 0 = (Ok tt, t)
            /\ t < Nat.max 0 1200 + 2 * 3 + poll_interval.
Proof.
  apply waitForUrl_detects_ready.
  - intro t; unfold ready_at_1200; destruct (Nat.ltb t 1200); simpl; lia.
  - intros t Ht; unfold ready_at_1200.
    replace (Nat.ltb t 1200) with false by (symmetry; apply Nat.ltb_ge; lia).
    reflexivity.
  - unfold poll_interval; simpl; lia.
Defined.

(** X10.  [gracefulShutdown] resolves [true] exactly when it sent at most
    one signal: every run that needed SIGKILL resolves [false] or waits
    for the exit forever. *)
Theorem gracefulShutdown_true_iff_no_escalation (c : Child) (timeoutMs : nat)
    (signal : string) (resp : Response) :
  fst (snd (gracefulShutdown c timeoutMs signal resp)) = Ok true
  <-> length (fst (gracefulShutdown c timeoutMs signal resp)) <= 1.
Proof.
  unfold gracefulShutdown.
  destruct (not_null (exitCode c) || not_null (signalCode c)).
  { simpl. split; intros; [lia | reflexivity]. }
  destruct (resp signal) as [d|]; simpl; [destruct (Nat.ltb timeoutMs d); simpl|];
    try (split; intros; [lia | reflexivity]);
    destruct (resp "SIGKILL"); simpl; split; intro H; try discriminate H; lia.
Qed.

(** X11.  [gracefulShutdown] sends only two kinds of signal: the initial
    signal at its start, and SIGKILL exactly when the timeout elapses. *)
Theorem gracefulShutdown_signal_times (c : Child) (timeoutMs : nat)
    (signal : string) (resp : Response) (t : nat) (sg : string) :
  In (t, sg) (fst (gracefulShutdown c timeoutMs signal resp)) ->
  (t = 0 /\ sg = signal) \/ (t = timeoutMs /\ sg = "SIGKILL").
Proof.
  unfold gracefulShutdown.
  destruct (not_null (exitCode c) || not_null (signalCode c)); [simpl; tauto|].
  destruct (resp signal) as [d|]; simpl; [destruct (Nat.ltb timeoutMs d); simpl|];
    intros H; repeat destruct H as [H | H]; try contradiction;
    inversion H; subst; auto.
Qed.

Lemma gracefulShutdown_signal_times_witness :
  (5000 = 0 /\ "SIGKILL" = "SIGTERM") \/ (5000 = 5000 /\ "SIGKILL" = "SIGKILL").
Proof.
  apply (gracefulShutdown_signal_times server_child 5000 "SIGTERM" ignores_term).
  vm_compute. right; left; reflexivity.
Defined.

(** X12.  The driver is started only after the server spawned and the
    readiness wait on its URL succeeded. *)
Theorem driver_starts_after_ready (argv : list string) (env : Env) :
  In DriverStarted (fst (program argv env)) ->
  srv_spawn env = SpawnOk
  /\ fst (waitForUrl (serverURL (fst (parse_args (skipn 2 argv) [])))
                     default_wait_timeout
                     (fetch (serverURL (fst (parse_args (skipn 2 argv) []))) (net env)) 0)
     = Ok tt.
Proof.
  destruct (program_run2 argv env) as [args Hp]. rewrite Hp.
  set (options := fst (parse_args (skipn 2 argv) [])).
  destruct (srv_spawn env) as [|e|e] eqn:Hs.
  - unfold run2, try_catch_finally.
    set (T := default_wait_timeout) in *. clearbody T.
    destruct (waitForUrl_settles (serverURL options) T
                (fetch (serverURL options) (net env)) 0) as [W | W];
      [intros _; split; [reflexivity | exact W] |].
    rewrite Hs. run_simpl.
    rewrite W. run_simpl. open_shutdown.
    destruct Hr as [-> | ->]; simpl;
      intro H; repeat (destruct H as [H | H]; [discriminate H |]);
      apply in_map_iff in H as ([? ?] & Hx & _); discriminate Hx.
  - rewrite (run2_spawn_error args options env _ e Hs). simpl.
    intro H; repeat (destruct H as [H | H]; [discriminate H |]); contradiction.
  - unfold run2, try_catch_finally. rewrite Hs. run_simpl.
    intro H; repeat (destruct H as [H | H]; [discriminate H |]); contradiction.
Qed.

Lemma driver_starts_after_ready_witness :
  srv_spawn env_driver_fails = SpawnOk.
Proof.
  apply (driver_starts_after_ready argv_port env_driver_fails).
  vm_compute. right; right; left; reflexivity.
Defined.

(** X13.  If [spawn] itself throws for the server, [serverProcess] stays
    [null]: the error is logged, the [finally] block skips the shutdown,
    and the process exits with code 0. *)
Theorem spawn_throw_logged_no_shutdown (argv : list string) (env : Env) (e : JsError) :
  srv_spawn env = SpawnThrows e ->
  program argv env = ([ErrorLogged (message e)], ProgExit 0).
Proof.
  intro Hs. destruct (program_run2 argv env) as [args Hp]. rewrite Hp.
  unfold run2, try_catch_finally. rewrite Hs. run_simpl. reflexivity.
Qed.

(** [spawn] fails synchronously, e.g. with EPERM. *)
Definition env_spawn_throws : Env := {|
  srv_spawn := SpawnThrows (ErrSpawn "spawn EPERM");
  net := always_ok;
  drv_events := [EvClose (Some 0%Z)];
  srv_child := server_child;
  srv_resp := term_in 100 |}.

Lemma spawn_throw_logged_no_shutdown_witness :
  program argv_port env_spawn_throws = ([ErrorLogged "spawn EPERM"], ProgExit 0).
Proof.
  apply (spawn_throw_logged_no_shutdown argv_port env_spawn_throws (ErrSpawn "spawn EPERM")).
  reflexivity.
Defined.

(** X14.  The successful run: the server spawns, its URL answers, the
    driver closes with code 0 and the server exits on SIGTERM within the
    5 s timeout.  Then the run is exactly: spawn, wait, driver, shutdown
    with one SIGTERM, and exit code 0. *)
Theorem successful_run_trace (argv : list string) (env : Env) (rest : list ProcEvent)
    (d : nat) :
  let url := serverURL (fst (parse_args (skipn 2 argv) [])) in
  srv_spawn env = SpawnOk ->
  fst (waitForUrl url default_wait_timeout (fetch url (net env)) 0) = Ok tt ->
  drv_events env = EvClose (Some 0%Z) :: rest ->
  exitCode (srv_child env) = None -> signalCode (srv_child env) = None ->
  srv_resp env "SIGTERM" = Some d -> d < 5000 ->
  program argv env =
    ([ServerSpawned; ReadinessStarted url; DriverStarted; ShutdownCalled;
      SignalSent 0 "SIGTERM"], ProgExit 0).
Proof.
  intros url Hs W Hd He Hsc Hr Hlt.
  destruct (program_run2 argv env) as [args Hp]. rewrite Hp. fold url.
  unfold run2, try_catch_finally. fold url.
  set (T := default_wait_timeout) in *. clearbody T.
  rewrite Hs. run_simpl. rewrite W. run_simpl. rewrite Hd. run_simpl.
  unfold shutdown. run_simpl. unfold gracefulShutdown.
  rewrite He, Hsc, Hr. simpl.
  replace (Nat.ltb 5000 d) with false by (symmetry; apply Nat.ltb_ge; lia).
  reflexivity.
Qed.

(** X15.  A driver that closes with a code other than 0 (or [null]) is
    reported as "Process exited with code <code>" before the server is shut
    down; the rest of the run is as in the successful case. *)
Theorem failed_driver_run_trace (argv : list string) (env : Env)
    (code : option Z) (rest : list ProcEvent) (d : nat) :
  let url := serverURL (fst (parse_args (skipn 2 argv) [])) in
  srv_spawn env = SpawnOk ->
  fst (waitForUrl url default_wait_timeout (fetch url (net env)) 0) = Ok tt ->
  drv_events env = EvClose code :: rest -> code <> Some 0%Z ->
  exitCode (srv_child env) = None -> signalCode (srv_child env) = None ->
  srv_resp env "SIGTERM" = Some d -> d < 5000 ->
  program argv env =
    ([ServerSpawned; ReadinessStarted url; DriverStarted;
      ErrorLogged ("Process exited with code " ++ code_to_string code);
      ShutdownCalled; SignalSent 0 "SIGTERM"], ProgExit 0).
Proof.
  intros url Hs W Hd Hc He Hsc Hr Hlt.
  destruct (program_run2 argv env) as [args Hp]. rewrite Hp. fold url.
  unfold run2, try_catch_finally. fold url.
  set (T := default_wait_timeout) in *. clearbody T.
  rewrite Hs. run_simpl. rewrite W. run_simpl. rewrite Hd.
  destruct code as [[|p|p]|]; [congruence | | |]; run_simpl;
    unfold shutdown; run_simpl; unfold gracefulShutdown;
    rewrite He, Hsc, Hr; simpl;
    replace (Nat.ltb 5000 d) with false by (symmetry; apply Nat.ltb_ge; lia);
    reflexivity.
Qed.

(** The server comes up, answers at once; the tests pass. *)
Definition env_success : Env := {|
  srv_spawn := SpawnOk;
  net := fun _ => (ProbeOk, 200);
  drv_events := [EvClose (Some 0%Z)];
  srv_child := server_child;
  srv_resp := term_in 100 |}.

Lemma successful_run_trace_witness :
  program argv_port env_success =
    ([ServerSpawned; ReadinessStarted "http://localhost:3000"; DriverStarted;
      ShutdownCalled; SignalSent 0 "SIGTERM"], ProgExit 0).
Proof.
  apply (successful_run_trace argv_port env_success [] 100);
    first [vm_compute; reflexivity | lia].
Defined.

Lemma failed_driver_run_trace_witness :
  program argv_port env_driver_fails =
    ([ServerSpawned; ReadinessStarted "http://localhost:3000"; DriverStarted;
      ErrorLogged "Process exited with code 2";
      ShutdownCalled; SignalSent 0 "SIGTERM"], ProgExit 0).
Proof.
  apply (failed_driver_run_trace argv_port env_driver_fails (Some 2%Z) [] 100);
    first [vm_compute; reflexivity | discriminate | lia].
Defined.
